(** * MapEvents.js: the event catalog and the download-error payload builder

    The module under study is

      export const mapEventTypes = { MAP_DOWNLOAD_ERROR: 'MAP_DOWNLOAD_ERROR' }
      export class MapEvents {
          static downloadError(errorMessage) { return { errorMessage } }
      }

    Both declarations evaluate an object literal, so the embedding is a small
    store-passing model of JavaScript objects: values, a heap of objects
    addressed by reference, a monad threading the heap and a completion
    (normal or abrupt), and the object-literal evaluation the two declarations
    use.  Only own data properties are modelled; prototypes are not. *)

From Stdlib Require Import Floats.SpecFloat.
From stdpp Require Import gmap strings list fin_maps.

Open Scope string_scope.

(** ** JavaScript values *)

(** Object references. *)
Abbreviation loc := positive.

(** The language's values.  A number is an IEEE-754 double, a string a
    sequence of characters, an object a reference into the heap. *)
Inductive value : Type :=
| VUndefined
| VNull
| VBool (b : bool)
| VNumber (x : spec_float)
| VBigInt (z : Z)
| VString (s : string)
| VSymbol (id : positive)
| VObject (l : loc).

#[global] Instance spec_float_eq_dec : EqDecision spec_float.
Proof. solve_decision. Defined.

#[global] Instance value_eq_dec : EqDecision value.
Proof. solve_decision. Defined.

(** An object is its table of own properties; the heap maps references to
    objects. *)
Abbreviation object := (gmap string value).
Abbreviation heap := (gmap loc (gmap string value)).

(** ** Completions and the evaluation monad *)

Inductive abrupt : Type :=
| TypeError
| Thrown (v : value).

Inductive completion (A : Type) : Type :=
| Normal (a : A)
| Abrupt (e : abrupt).

Arguments Normal {A} a.
Arguments Abrupt {A} e.

Definition JS (A : Type) : Type := heap → completion A * heap.

Definition throw {A} (e : abrupt) : JS A := λ h, (Abrupt e, h).

#[global] Instance JS_ret : MRet JS := λ A a h, (Normal a, h).

#[global] Instance JS_bind : MBind JS :=
  λ A B k c h, match c h with
               | (Normal a, h') => k a h'
               | (Abrupt e, h') => (Abrupt e, h')
               end.

Definition result {A} (c : JS A) (h : heap) : completion A := (c h).1.
Definition final {A} (c : JS A) (h : heap) : heap := (c h).2.

(** ** Object literals and property reads *)

(** Allocation of a new object: a reference that the heap does not hold. *)
Definition alloc (o : object) : JS loc :=
  λ h, let l := fresh (dom h) in (Normal l, <[l := o]> h).

(** Properties of a literal are defined left to right; a later definition of
    a key replaces an earlier one. *)
Definition define_all (props : list (string * value)) : object :=
  foldl (λ o kv, <[kv.1 := kv.2]> o) ∅ props.

(** [{ k1: v1, ..., kn: vn }] *)
Definition object_literal (props : list (string * value)) : JS value :=
  l ← alloc (define_all props);
  mret (VObject l).

(** [v.k]: a property read.  Reading from [undefined] or [null] throws; a
    missing property reads as [undefined]. *)
Definition member (v : value) (k : string) : JS value :=
  match v with
  | VUndefined | VNull => throw TypeError
  | VObject l =>
      λ h, match h !! l with
           | Some o => (Normal (default VUndefined (o !! k)), h)
           | None => (Abrupt TypeError, h)
           end
  | _ => mret VUndefined
  end.

(** A call binds the first parameter to the first argument, or to
    [undefined] when the argument is absent; further arguments are ignored. *)
Definition call1 (f : value → JS value) (args : list value) : JS value :=
  f (default VUndefined (args !! 0)).

(** ** The module *)

(** [{ MAP_DOWNLOAD_ERROR: 'MAP_DOWNLOAD_ERROR' }], as written. *)
Definition mapEventTypes_literal : list (string * value) :=
  [("MAP_DOWNLOAD_ERROR", VString "MAP_DOWNLOAD_ERROR")].

(** The module's exported bindings. *)
Record exports : Type := { mapEventTypes : value }.

(** Evaluation of the module body: the catalog literal is evaluated once and
    bound to the constant [mapEventTypes]. *)
Definition load : JS exports :=
  v ← object_literal mapEventTypes_literal;
  mret {| mapEventTypes := v |}.

Module MapEvents.

(** [static downloadError(errorMessage) { return { errorMessage } }] *)
Definition downloadError (errorMessage : value) : JS value :=
  object_literal [("errorMessage", errorMessage)].

End MapEvents.

(** ** Use of the module by its clients *)

(** The operations the module offers to its clients: a read of a property
    of the catalog, and a call of the payload builder. *)
Inductive op : Type :=
| Read (k : string)
| Call (args : list value).

Definition step (m : exports) (o : op) : JS value :=
  match o with
  | Read k => member (mapEventTypes m) k
  | Call args => call1 MapEvents.downloadError args
  end.

(** A sequence of operations, with the completion of each. *)
Fixpoint run (m : exports) (os : list op) : heap → list (completion value) * heap :=
  λ h, match os with
       | [] => ([], h)
       | o :: os' =>
           let (r, h') := step m o h in
           let (rs, h'') := run m os' h' in
           (r :: rs, h'')
       end.

(** The object a completion refers to, if it is a normal completion with a
    reference the heap holds. *)
Definition target (r : completion value) (h : heap) : option object :=
  match r with
  | Normal (VObject l) => h !! l
  | _ => None
  end.

(** [MapEvents.downloadError(a1, ..., an)] as a client writes it. *)
Definition downloadError_call (args : list value) : JS value :=
  call1 MapEvents.downloadError args.

(** The heap after a sequence of operations. *)
Definition after (m : exports) (os : list op) (h : heap) : heap := (run m os h).2.




(** The number of calls of the payload builder in a sequence of operations. *)
Fixpoint calls (os : list op) : nat :=
  match os with
  | [] => 0
  | Call _ :: os' => S (calls os')
  | Read _ :: os' => calls os'
  end.

(** ** Allocation and the frame of an operation *)

Section Frame.

Implicit Types (h : heap) (o : object) (v : value) (m : exports).

Lemma fresh_unused h : h !! fresh (dom h) = None.
Proof. apply not_elem_of_dom, is_fresh. Qed.

Lemma alloc_extends o h : h ⊆ final (alloc o) h.
Proof. apply insert_subseteq, fresh_unused. Qed.

Lemma object_literal_eq props h :
  object_literal props h
  = (Normal (VObject (fresh (dom h))), <[fresh (dom h) := define_all props]> h).
Proof. reflexivity. Qed.

Lemma define_all_single k v : define_all [(k, v)] = {[ k := v ]}.
Proof. unfold define_all. simpl. apply insert_empty. Qed.

Lemma downloadError_eq v h :
  MapEvents.downloadError v h
  = (Normal (VObject (fresh (dom h))), <[fresh (dom h) := {[ "errorMessage" := v ]}]> h).
Proof.
  unfold MapEvents.downloadError. rewrite object_literal_eq.
  by rewrite define_all_single.
Qed.

Lemma load_eq h :
  load h
  = (Normal {| mapEventTypes := VObject (fresh (dom h)) |},
     <[fresh (dom h) := {[ "MAP_DOWNLOAD_ERROR" := VString "MAP_DOWNLOAD_ERROR" ]}]> h).
Proof.
  unfold load, mbind, JS_bind. rewrite object_literal_eq.
  unfold mapEventTypes_literal. by rewrite define_all_single.
Qed.

Lemma member_final v k h : final (member v k) h = h.
Proof.
  unfold final. destruct v; try reflexivity.
  simpl. by destruct (h !! l).
Qed.

Lemma step_extends m a h : h ⊆ final (step m a) h.
Proof.
  destruct a as [k | args]; simpl.
  - by rewrite member_final.
  - unfold final, call1. rewrite downloadError_eq. simpl.
    apply insert_subseteq, fresh_unused.
Qed.

Lemma after_cons m a os h : after m (a :: os) h = after m os (final (step m a) h).
Proof.
  unfold after, final. simpl.
  destruct (step m a h) as [r h']. simpl.
  by destruct (run m os h').
Qed.

Lemma after_extends m os h : h ⊆ after m os h.
Proof.
  revert h. induction os as [| a os IH]; intros h.
  - reflexivity.
  - rewrite after_cons. etrans; [apply step_extends | apply IH].
Qed.

Lemma after_lookup m os h l o : h !! l = Some o → after m os h !! l = Some o.
Proof. intros H. eapply lookup_weaken; [exact H | apply after_extends]. Qed.

End Frame.

(** ** The payload builder *)

Example downloadError_network_timeout :
  target (result (downloadError_call [VString "network timeout"]) ∅)
         (final (downloadError_call [VString "network timeout"]) ∅)
  = Some {[ "errorMessage" := VString "network timeout" ]}.
Proof. vm_compute. reflexivity. Qed.

(** What a call does, for any argument list: it completes normally with a
    reference the heap did not hold, and the only change to the heap is the
    new object, whose one property is the first argument. *)
Lemma downloadError_call_eq (args : list value) (h : heap) :
  downloadError_call args h
  = (Normal (VObject (fresh (dom h))),
     <[fresh (dom h) := {[ "errorMessage" := default VUndefined (args !! 0) ]}]> h).
Proof. unfold downloadError_call, call1. apply downloadError_eq. Qed.

Lemma target_downloadError_call (args : list value) (h : heap) :
  target (result (downloadError_call args) h) (final (downloadError_call args) h)
  = Some {[ "errorMessage" := default VUndefined (args !! 0) ]}.
Proof.
  unfold result, final. rewrite downloadError_call_eq. simpl.
  apply lookup_insert_eq.
Qed.

(** C1: for every string [s], [MapEvents.downloadError(s)] returns an object
    with exactly one field, [errorMessage], whose value is [s]; in particular
    [downloadError("network timeout")] returns
    [{ errorMessage: "network timeout" }]. *)
Theorem downloadError_string_payload (s : string) (h : heap) :
  (∃ o : object,
      target (result (downloadError_call [VString s]) h)
             (final (downloadError_call [VString s]) h) = Some o
      ∧ map_to_list o = [("errorMessage", VString s)]
      ∧ dom o = {[ "errorMessage" ]}
      ∧ o !! "errorMessage" = Some (VString s))
  ∧ target (result (downloadError_call [VString "network timeout"]) h)
           (final (downloadError_call [VString "network timeout"]) h)
    = Some {[ "errorMessage" := VString "network timeout" ]}.
Proof.
  split.
  - exists {[ "errorMessage" := VString s ]}. split_and!.
    + apply target_downloadError_call.
    + apply map_to_list_singleton.
    + apply dom_singleton_L.
    + apply lookup_singleton_eq.
  - apply target_downloadError_call.
Qed.

(** C4: [MapEvents.downloadError] cannot fail: for every argument list and
    every heap the call completes normally, never abruptly, with a reference
    to an object; [downloadError("")] returns [{ errorMessage: "" }]. *)
Theorem downloadError_never_throws (args : list value) (h : heap) :
  (∃ l : loc, result (downloadError_call args) h = Normal (VObject l))
  ∧ (∀ e : abrupt, result (downloadError_call args) h ≠ Abrupt e)
  ∧ (∃ l : loc, result (downloadError_call [VString ""]) h = Normal (VObject l))
  ∧ target (result (downloadError_call [VString ""]) h)
           (final (downloadError_call [VString ""]) h)
    = Some {[ "errorMessage" := VString "" ]}.
Proof.
  unfold result. rewrite !downloadError_call_eq. simpl. split_and!.
  - by eexists.
  - intros e. discriminate.
  - by eexists.
  - apply lookup_insert_eq.
Qed.

(** C8: [MapEvents.downloadError] performs no validation, conversion or
    trimming: the value passed is the value of the [errorMessage] field of
    the result, also when it is the empty string, [undefined], or absent
    (an absent argument reads as [undefined]). *)
Theorem downloadError_verbatim (args : list value) (v : value) (h : heap) :
  target (result (downloadError_call args) h) (final (downloadError_call args) h)
  = Some {[ "errorMessage" := default VUndefined (args !! 0) ]}
  ∧ result (x ← downloadError_call [v]; member x "errorMessage") h = Normal v
  ∧ result (x ← downloadError_call [VString ""]; member x "errorMessage") h
    = Normal (VString "")
  ∧ result (x ← downloadError_call [VUndefined]; member x "errorMessage") h
    = Normal VUndefined
  ∧ result (x ← downloadError_call []; member x "errorMessage") h
    = Normal VUndefined
  ∧ target (result (downloadError_call []) h) (final (downloadError_call []) h)
    = Some {[ "errorMessage" := VUndefined ]}.
Proof.
  split_and!; try apply target_downloadError_call.
  all: unfold result, mbind, JS_bind; rewrite downloadError_call_eq; simpl.
  all: by rewrite lookup_insert_eq, lookup_singleton_eq.
Qed.

(** C10: [MapEvents.downloadError] is total over all argument values: for
    every value [v] of any type the call completes normally with a reference
    to a new object [{ errorMessage: v }]; the field holds the argument
    itself (for an object, the same reference), and nothing else in the heap
    changes, so no copy or conversion of the argument is made. *)
Theorem downloadError_total (v : value) (h : heap) :
  ∃ l : loc,
    result (downloadError_call [v]) h = Normal (VObject l)
    ∧ h !! l = None
    ∧ final (downloadError_call [v]) h = <[l := {[ "errorMessage" := v ]}]> h
    ∧ result (member (VObject l) "errorMessage") (final (downloadError_call [v]) h)
      = Normal v.
Proof.
  exists (fresh (dom h)).
  unfold result, final. rewrite downloadError_call_eq. simpl. split_and!.
  - reflexivity.
  - apply fresh_unused.
  - reflexivity.
  - by rewrite lookup_insert_eq, lookup_singleton_eq.
Qed.

(** C7: [MapEvents.downloadError] is deterministic: two calls with equal
    inputs, from any two heaps (the same run or different runs), return
    payloads of equal content: the same [errorMessage] and the same
    one-field shape. *)
Theorem downloadError_deterministic (v1 v2 : value) (h1 h2 : heap) :
  v1 = v2 →
  target (result (downloadError_call [v1]) h1) (final (downloadError_call [v1]) h1)
  = target (result (downloadError_call [v2]) h2) (final (downloadError_call [v2]) h2)
  ∧ result (x ← downloadError_call [v1]; member x "errorMessage") h1
    = result (x ← downloadError_call [v2]; member x "errorMessage") h2
  ∧ dom <$> target (result (downloadError_call [v1]) h1)
                   (final (downloadError_call [v1]) h1)
    = Some {[ "errorMessage" ]}
  ∧ dom <$> target (result (downloadError_call [v2]) h2)
                   (final (downloadError_call [v2]) h2)
    = Some {[ "errorMessage" ]}.
Proof.
  intros ->. rewrite !target_downloadError_call. split_and!.
  - reflexivity.
  - unfold result, mbind, JS_bind. rewrite !downloadError_call_eq. simpl.
    by rewrite !lookup_insert_eq.
  - simpl. by rewrite dom_singleton_L.
  - simpl. by rewrite dom_singleton_L.
Qed.

Lemma downloadError_deterministic_witness :
  VString "x" = VString "x"
  ∧ target (result (downloadError_call [VString "x"]) ∅)
           (final (downloadError_call [VString "x"]) ∅)
    = target (result (downloadError_call [VString "x"]) {[ 1%positive := ∅ ]})
             (final (downloadError_call [VString "x"]) {[ 1%positive := ∅ ]}).
Proof.
  split; [reflexivity |].
  apply (downloadError_deterministic (VString "x") (VString "x") ∅ {[ 1%positive := ∅ ]}).
  reflexivity.
Defined.

(** C3: every call to [MapEvents.downloadError] returns a newly allocated
    object: the reference returned is one the heap did not hold before the
    call, so it aliases no earlier payload; and two separate calls, with
    any operations of the module between them and also with equal
    arguments, return different references, each to its own payload. *)
Theorem downloadError_fresh_object
    (m : exports) (s1 s2 : string) (between : list op) (h : heap) :
  let c1 := downloadError_call [VString s1] in
  let c2 := downloadError_call [VString s2] in
  let h2 := after m between (final c1 h) in
  ∃ l1 l2 : loc,
    result c1 h = Normal (VObject l1)
    ∧ result c2 h2 = Normal (VObject l2)
    ∧ l1 ≠ l2
    ∧ h !! l1 = None
    ∧ h2 !! l2 = None
    ∧ final c2 h2 !! l1 = Some {[ "errorMessage" := VString s1 ]}
    ∧ final c2 h2 !! l2 = Some {[ "errorMessage" := VString s2 ]}.
Proof.
  intros c1 c2 h2. subst c1 c2.
  assert (Hl1 : h2 !! fresh (dom h) = Some {[ "errorMessage" := VString s1 ]}).
  { subst h2. apply after_lookup. unfold final.
    rewrite downloadError_call_eq. simpl. apply lookup_insert_eq. }
  assert (Hne : fresh (dom h) ≠ fresh (dom h2)).
  { intros Heq. rewrite Heq, fresh_unused in Hl1. discriminate. }
  exists (fresh (dom h)), (fresh (dom h2)).
  unfold result, final. rewrite !downloadError_call_eq. simpl. split_and!.
  - reflexivity.
  - reflexivity.
  - exact Hne.
  - apply fresh_unused.
  - apply fresh_unused.
  - rewrite lookup_insert_ne by done. exact Hl1.
  - apply lookup_insert_eq.
Qed.

(** ** The catalog *)

Lemma member_object (l : loc) (k : string) (o : object) (h : heap) :
  h !! l = Some o → member (VObject l) k h = (Normal (default VUndefined (o !! k)), h).
Proof. intros H. simpl. by rewrite H. Qed.

(** After the module is loaded, and after any further operations, the
    catalog reference holds the object of the literal. *)
Lemma catalog_after (h0 : heap) (os : list op) :
  ∃ l : loc,
    result load h0 = Normal {| mapEventTypes := VObject l |}
    ∧ final load h0 !! l
      = Some {[ "MAP_DOWNLOAD_ERROR" := VString "MAP_DOWNLOAD_ERROR" ]}
    ∧ after {| mapEventTypes := VObject l |} os (final load h0) !! l
      = Some {[ "MAP_DOWNLOAD_ERROR" := VString "MAP_DOWNLOAD_ERROR" ]}.
Proof.
  exists (fresh (dom h0)). unfold result, final. rewrite load_eq. simpl.
  split_and!; [done | apply lookup_insert_eq |].
  apply after_lookup, lookup_insert_eq.
Qed.

(** C2: the catalog entry [mapEventTypes.MAP_DOWNLOAD_ERROR] is the string
    ["MAP_DOWNLOAD_ERROR"]. *)
Theorem mapEventTypes_MAP_DOWNLOAD_ERROR (h0 : heap) :
  ∃ m : exports,
    result load h0 = Normal m
    ∧ result (member (mapEventTypes m) "MAP_DOWNLOAD_ERROR") (final load h0)
      = Normal (VString "MAP_DOWNLOAD_ERROR").
Proof.
  destruct (catalog_after h0 []) as (l & Hm & Hl & _).
  eexists. split; [exact Hm |]. cbn [mapEventTypes].
  unfold result. by rewrite (member_object _ _ _ _ Hl).
Qed.

(** C6: the catalog has exactly one entry; each key has one value, a
    string; no value occurs under two keys; and the value of the key
    [MAP_DOWNLOAD_ERROR] is the key's own name. *)
Theorem mapEventTypes_one_entry (h0 : heap) :
  ∃ (m : exports) (o : object),
    result load h0 = Normal m
    ∧ target (Normal (mapEventTypes m)) (final load h0) = Some o
    ∧ length mapEventTypes_literal = 1
    ∧ size o = 1
    ∧ map_to_list o = [("MAP_DOWNLOAD_ERROR", VString "MAP_DOWNLOAD_ERROR")]
    ∧ NoDup (map_to_list o).*1
    ∧ NoDup (map_to_list o).*2
    ∧ o !! "MAP_DOWNLOAD_ERROR" = Some (VString "MAP_DOWNLOAD_ERROR").
Proof.
  destruct (catalog_after h0 []) as (l & Hm & Hl & _).
  eexists _, _. split; [exact Hm |]. split; [exact Hl |].
  rewrite map_to_list_singleton. split_and!.
  - reflexivity.
  - apply map_size_singleton.
  - reflexivity.
  - apply NoDup_singleton.
  - apply NoDup_singleton.
  - apply lookup_singleton_eq.
Qed.

(** C5: the catalog is read-only for the module: after the module is loaded
    and after any sequence of the module's operations, two reads of
    [mapEventTypes.MAP_DOWNLOAD_ERROR] in sequence yield the same value and
    leave the heap as it was, and the catalog object is the one the module
    was loaded with: no operation of the module mutates the mapping. *)
Theorem mapEventTypes_read_only (h0 : heap) (os : list op) :
  ∃ m : exports,
    result load h0 = Normal m
    ∧ let h1 := final load h0 in
      let h2 := after m os h1 in
      run m [Read "MAP_DOWNLOAD_ERROR"; Read "MAP_DOWNLOAD_ERROR"] h2
      = ([Normal (VString "MAP_DOWNLOAD_ERROR");
          Normal (VString "MAP_DOWNLOAD_ERROR")], h2)
      ∧ target (Normal (mapEventTypes m)) h1
        = Some {[ "MAP_DOWNLOAD_ERROR" := VString "MAP_DOWNLOAD_ERROR" ]}
      ∧ target (Normal (mapEventTypes m)) h2
        = target (Normal (mapEventTypes m)) h1.
Proof.
  destruct (catalog_after h0 os) as (l & Hm & Hl1 & Hl2).
  eexists. split; [exact Hm |]. simpl. split_and!.
  - repeat (rewrite Hl2; simpl). by rewrite lookup_singleton_eq.
  - exact Hl1.
  - by rewrite Hl1, Hl2.
Qed.

(** C9: the module is stateless: any number of calls to
    [MapEvents.downloadError], with any arguments, leave every object the
    heap held when the module was loaded as it was; in particular the
    catalog object and its entry [MAP_DOWNLOAD_ERROR] are unchanged. *)
Theorem downloadError_stateless (h0 : heap) (calls : list (list value)) :
  ∃ m : exports,
    result load h0 = Normal m
    ∧ let h1 := final load h0 in
      let h2 := after m (Call <$> calls) h1 in
      h1 ⊆ h2
      ∧ target (Normal (mapEventTypes m)) h2 = target (Normal (mapEventTypes m)) h1
      ∧ target (Normal (mapEventTypes m)) h2
        = Some {[ "MAP_DOWNLOAD_ERROR" := VString "MAP_DOWNLOAD_ERROR" ]}
      ∧ result (member (mapEventTypes m) "MAP_DOWNLOAD_ERROR") h2
        = result (member (mapEventTypes m) "MAP_DOWNLOAD_ERROR") h1
      ∧ result (member (mapEventTypes m) "MAP_DOWNLOAD_ERROR") h2
        = Normal (VString "MAP_DOWNLOAD_ERROR").
Proof.
  destruct (catalog_after h0 (Call <$> calls)) as (l & Hm & Hl1 & Hl2).
  eexists. split; [exact Hm |]. simpl. split_and!.
  - apply after_extends.
  - by rewrite Hl1, Hl2.
  - exact Hl2.
  - unfold result. by rewrite Hl1, Hl2.
  - unfold result. by rewrite Hl2.
Qed.

(** ** Sequences of operations *)

Section Traces.

Implicit Types (h : heap) (m : exports) (os : list op) (lc : loc).


Lemma step_call m args h :
  step m (Call args) h
  = (Normal (VObject (fresh (dom h))),
     <[fresh (dom h) := {[ "errorMessage" := default VUndefined (args !! 0) ]}]> h).
Proof. apply downloadError_call_eq. Qed.



Lemma size_after m os h : size (after m os h) = size h + calls os.
Proof.
  revert h. induction os as [| [k | args] os IH]; intros h.
  - unfold after. simpl. lia.
  - rewrite after_cons, IH. simpl. by rewrite member_final.
  - rewrite after_cons, IH. unfold final. rewrite step_call. simpl.
    rewrite map_size_insert_None by apply fresh_unused. lia.
Qed.





End Traces.


(** X2: a call of [MapEvents.downloadError] allocates exactly one object
    and a read of the catalog none: after any sequence of operations the
    heap holds as many objects more as the sequence has calls. *)
Theorem one_object_per_call
    (m : exports) (os : list op) (args : list value) (k : string) (h : heap) :
  size (after m os h) = size h + calls os
  ∧ size (final (downloadError_call args) h) = S (size h)
  ∧ size (after m [Read k] h) = size h.
Proof.
  split_and!.
  - apply size_after.
  - unfold final. rewrite downloadError_call_eq. simpl.
    apply map_size_insert_None, fresh_unused.
  - rewrite size_after. simpl. lia.
Qed.


(** X4: the module never changes a payload it has returned: after any
    further operations the object returned by a call of
    [MapEvents.downloadError] still has the argument of that call as its
    one property [errorMessage]. *)
Theorem payload_never_mutated (m : exports) (args : list value) (os : list op) (h : heap) :
  ∃ l : loc,
    result (downloadError_call args) h = Normal (VObject l)
    ∧ after m os (final (downloadError_call args) h) !! l
      = Some {[ "errorMessage" := default VUndefined (args !! 0) ]}
    ∧ result (member (VObject l) "errorMessage")
             (after m os (final (downloadError_call args) h))
      = Normal (default VUndefined (args !! 0)).
Proof.
  exists (fresh (dom h)).
  assert (Hl : after m os (final (downloadError_call args) h) !! fresh (dom h)
               = Some {[ "errorMessage" := default VUndefined (args !! 0) ]}).
  { apply after_lookup. unfold final. rewrite downloadError_call_eq.
    apply lookup_insert_eq. }
  split_and!.
  - unfold result. by rewrite downloadError_call_eq.
  - exact Hl.
  - unfold result. rewrite (member_object _ _ _ _ Hl).
    by rewrite lookup_singleton_eq.
Qed.
